(** * neupy: the Levenberg-Marquardt training step and the discrete-memory
      input validation

    Sources: [neupy/algorithms/gd/lev_marq.py] (function [jaccobian], class
    [LevenbergMarquardt]) and [neupy/algorithms/memory/base.py] (class
    [DiscreteMemory]).

    Two number models are used:

    - [Binary64]: the scalar shared variables [mu] and [last_error], the
      option checks and the damping rule are IEEE-754 binary64 values
      (theano's default [floatX]), embedded as Rocq's primitive floats.
      [np.nan], underflow and overflow are the machine's.
    - [LevMarq]: tensors, the symbolic graph, the Jacobian and the dense
      solve are embedded over an arbitrary real field [R] (exact
      arithmetic).  Rounding inside the LAPACK inversion is outside this
      model; [numpy.linalg.inv] raising on a singular matrix is kept as the
      failure of [matrix_inverse].

    The training loop of the base class (which calls [epoch_start_update],
    runs the compiled step and records the epoch's error) is not among the
    sources; an epoch is therefore given by the two values the loop feeds
    into this code. *)

From Stdlib Require Import ZArith Lia Floats.
From HB Require Import structures.
From mathcomp Require Import ssreflect ssrfun ssrbool eqtype ssrnat seq choice.
From mathcomp Require Import fintype bigop order ssralg ssrnum ssrint rat.
From mathcomp Require Import matrix mxalgebra.

Set Implicit Arguments.
Unset Strict Implicit.
Unset Printing Implicit Defensive.
Set Warnings "-inexact-float".

(** ** Python outcomes *)

(** A call either returns a value or raises. *)
Inductive exception := ValueError | LinAlgError | ReshapeError.

Inductive outcome (A : Type) := Return (a : A) | Raise (e : exception).
Arguments Return {A} a.
Arguments Raise {A} e.

Definition bind {A B : Type} (x : outcome A) (k : A -> outcome B) : outcome B :=
  match x with
  | Return a => k a
  | Raise e => Raise e
  end.

Notation "'do' x <- a ; b" := (bind a (fun x => b))
  (at level 200, x name, a at level 100, b at level 200, right associativity).

(** ** Part 1: the damping state in binary64 *)

Module Binary64.

Local Open Scope float_scope.

(** [BoundedProperty(default=d, minval=m)], as [LevenbergMarquardt] declares
    its two options (lev_marq.py, lines 127-128). *)
Record BoundedProperty := { default : float; minval : float }.

Definition mu_property : BoundedProperty := {| default := 0.01; minval := 0 |}.
Definition mu_update_factor_property : BoundedProperty :=
  {| default := 5; minval := 1 |}.

(** Modelled from the spec: the check [BoundedProperty] runs on a supplied
    value lives in [neupy.core.properties], outside the listed sources.  The
    spec words it as the value "must be >= minval", a value below it being a
    configuration error raised at construction. *)
Definition validate (p : BoundedProperty) (value : float) : outcome float :=
  if minval p <=? value then Return value else Raise ValueError.

(** Modelled from the spec: the option machinery of the constructor is in
    [neupy.core], outside the listed sources.  A supplied option is checked;
    an option left out takes the declared default. *)
Definition option_value (p : BoundedProperty) (given : option float) : outcome float :=
  match given with
  | Some value => validate p value
  | None => Return (default p)
  end.

(** The configured instance, as far as this code reads it: the two options
    [self.mu] and [self.mu_update_factor]. *)
Record LevenbergMarquardt := { self_mu : float; self_mu_update_factor : float }.

Definition construct (mu mu_update_factor : option float) : outcome LevenbergMarquardt :=
  do m <- option_value mu_property mu;
  do f <- option_value mu_update_factor_property mu_update_factor;
  Return {| self_mu := m; self_mu_update_factor := f |}.

(** The two scalar shared variables of [self.variables]. *)
Record variables := { mu : float; last_error : float }.

(** [init_variables] (lines 135-140): [mu] starts at the configured value
    ([asfloat] is the identity at [floatX = float64]), [last_error] at
    [np.nan]. *)
Definition init_variables (self : LevenbergMarquardt) : variables :=
  {| mu := self_mu self; last_error := nan |}.

(** Lines 149-153: [ifelse(T.lt(last_error, error_func), mu * f, mu / f)]. *)
Definition new_mu (self : LevenbergMarquardt) (v : variables) (error_func : float) : float :=
  if last_error v <? error_func
  then mu v * self_mu_update_factor self
  else mu v / self_mu_update_factor self.

(** The scalar entry [(mu, new_mu)] of the update list (line 169), applied
    to the shared variables; [last_error] is not among the updates. *)
Definition train_updates (self : LevenbergMarquardt) (error_func : float) (v : variables) : variables :=
  {| mu := new_mu self v error_func; last_error := last_error v |}.

(** [epoch_start_update] (lines 182-187).  [recorded] is what
    [self.last_error()] returns: [None] while no epoch has been recorded. *)
Definition epoch_start_update (recorded : option float) (v : variables) : variables :=
  match recorded with
  | Some e => {| mu := mu v; last_error := e |}
  | None => v
  end.

(** One epoch as the training loop drives it: the hook, then the compiled
    step.  An epoch is given by what [self.last_error()] returns at its start
    and by the value of [error_func] on its data. *)
Definition epoch (self : LevenbergMarquardt) (v : variables) (e : option float * float) : variables :=
  train_updates self e.2 (epoch_start_update e.1 v).

Definition train (self : LevenbergMarquardt) (epochs : seq (option float * float)) : variables :=
  foldl (epoch self) (init_variables self) epochs.

(** A binary64 value that is zero (of either sign), positive finite or
    [+infinity]: the values [x] with [0 <= x]. *)
Definition sf_nonneg (x : spec_float) : bool :=
  match x with
  | S754_zero _ => true
  | S754_infinity s => negb s
  | S754_nan => false
  | S754_finite s _ _ => negb s
  end.

End Binary64.

(** ** Part 2: tensors, the symbolic graph and the training step over a
       real field *)

Module LevMarq.

Section Model.

Variable R : realFieldType.

Local Open Scope ring_scope.

(** *** Tensors *)

(** An n-dimensional array: its shape and its elements in row-major order. *)
Record tensor (T : Type) := Tensor { shape : seq nat; data : seq T }.

(** [t.size]: the product of the dimensions. *)
Definition tsize (T : Type) (t : tensor T) : nat := foldr muln 1%N (shape t).

(** The array invariant: as many elements as the shape announces. *)
Definition well_shaped (T : Type) (t : tensor T) : bool := size (data t) == tsize t.

(** [t.flatten()]. *)
Definition tflatten (T : Type) (t : tensor T) : seq T := data t.

(** [T.reshape(v, shp)] and [t.reshape(shp)] on the flattened elements; the
    element count must match the new shape. *)
Definition T_reshape (T : Type) (v : seq T) (shp : seq nat) : outcome (tensor T) :=
  if size v == foldr muln 1%N shp then Return (Tensor shp v) else Raise ReshapeError.

(** [v[start:stop]] on a vector. *)
Definition slice (T : Type) (v : seq T) (start stop : nat) : seq T :=
  drop start (take stop v).

(** [t.shape[k]], and row [i] of a 2-D tensor. *)
Definition dim (T : Type) (t : tensor T) (k : nat) : nat := nth 0%N (shape t) k.

Definition row2 (T : Type) (t : tensor T) (i : nat) : seq T :=
  slice (data t) (i * dim t 1) (i * dim t 1 + dim t 1).

(** [T.concatenate(ts, axis=1)] on 2-D tensors: row [i] of the result is the
    rows [i] of the arguments, one after the other.  An empty list, or
    arguments that disagree on their number of rows, raise. *)
Definition T_concatenate_axis1 (T : Type) (ts : seq (tensor T)) : outcome (tensor T) :=
  if ts is t0 :: _ then
    let n := dim t0 0 in
    if all (fun t => dim t 0 == n) ts then
      Return (Tensor [:: n; sumn [seq dim t 1 | t <- ts]]
                     (flatten [seq flatten [seq row2 t i | t <- ts] | i <- iota 0 n]))
    else Raise ValueError
  else Raise ValueError.

(** [for x in xs: out.append(f(x))] where [f] may raise. *)
Fixpoint for_each (A B : Type) (f : A -> outcome B) (xs : seq A) : outcome (seq B) :=
  if xs is x :: xs' then
    do y <- f x; do ys <- for_each f xs'; Return (y :: ys)
  else Return [::].

(** *** The symbolic graph *)

(** An elementwise operation of the graph library: how it computes, and its
    derivative. *)
Record elemwise := Elemwise { perform : R -> R; derivative : R -> R }.

(** Scalar expressions over the shared parameters.  [Shared p k] is element
    [k] (row-major) of the [p]-th parameter of the list the graph is
    differentiated against. *)
Inductive expr :=
| Const (c : R)
| Shared (p k : nat)
| Add (a b : expr)
| Sub (a b : expr)
| Mul (a b : expr)
| Div (a b : expr)
| Pow (a : expr) (n : nat)
| Apply (f : elemwise) (a : expr).

Definition get (params : seq (tensor R)) (p k : nat) : R :=
  nth 0 (data (nth (Tensor [::] [::]) params p)) k.

(** The value of an expression at the current parameter values. *)
Fixpoint eval (params : seq (tensor R)) (e : expr) : R :=
  match e with
  | Const c => c
  | Shared p k => get params p k
  | Add a b => eval params a + eval params b
  | Sub a b => eval params a - eval params b
  | Mul a b => eval params a * eval params b
  | Div a b => eval params a / eval params b
  | Pow a n => eval params a ^+ n
  | Apply f a => perform f (eval params a)
  end.

(** The partial derivative of an expression with respect to element [k] of
    parameter [p], at the current parameter values (the differentiation
    rules of the graph library). *)
Fixpoint partial (params : seq (tensor R)) (p k : nat) (e : expr) : R :=
  match e with
  | Const _ => 0
  | Shared p' k' => ((p' == p) && (k' == k))%:R
  | Add a b => partial params p k a + partial params p k b
  | Sub a b => partial params p k a - partial params p k b
  | Mul a b => partial params p k a * eval params b + eval params a * partial params p k b
  | Div a b =>
      (partial params p k a * eval params b - eval params a * partial params p k b)
      / eval params b ^+ 2
  | Pow a n => n%:R * eval params a ^+ n.-1 * partial params p k a
  | Apply f a => derivative f (eval params a) * partial params p k a
  end.

(** [T.grad(cost, wrt=params)], evaluated: one tensor per parameter, of the
    parameter's shape. *)
Definition T_grad (cost : expr) (wrt : seq (tensor R)) : seq (tensor R) :=
  [seq Tensor (shape (nth (Tensor [::] [::]) wrt p))
              [seq partial wrt p k cost | k <- iota 0 (tsize (nth (Tensor [::] [::]) wrt p))]
  | p <- iota 0 (size wrt)].

(** [T.sum] of a scalar, and [y[i]] on a symbolic vector. *)
Definition T_sum (e : expr) : expr := e.

Definition item (y : tensor expr) (i : nat) : expr := nth (Const 0) (data y) i.

(** [a[i, j]] on a symbolic matrix. *)
Definition item2 (a : tensor expr) (i j : nat) : expr :=
  nth (Const 0) (data a) (i * dim a 1 + j).

(** [theano.scan(fn, sequences=T.arange(n))] for an [fn] with [n_outputs]
    results, as [jaccobian] reads it: a list with one entry per result of
    [fn], entry [k] stacking the [k]-th result of every step along a new
    leading axis.  Only the stacked elements are kept; [jaccobian] reshapes
    each entry at once. *)
Definition scan (fn : nat -> seq (tensor R)) (n n_outputs : nat) : seq (seq R) :=
  [seq flatten [seq data (nth (Tensor [::] [::]) (fn i) k) | i <- iota 0 n]
  | k <- iota 0 n_outputs].

(** [jaccobian(y, x)] (lev_marq.py, lines 16-28). *)
Definition jaccobian (y : tensor expr) (x : seq (tensor R)) : outcome (tensor R) :=
  let n_samples := dim y 0 in
  let J := scan (fun i => T_grad (T_sum (item y i)) x) n_samples (size x) in
  do jacc <- for_each (fun jp => T_reshape jp.1 [:: n_samples; tsize jp.2]) (zip J x);
  T_concatenate_axis1 jacc.

(** Elementwise difference and power of symbolic tensors (operands of equal
    shape), and [T.mean(t, axis=1)] of a symbolic matrix. *)
Definition T_sub (a b : tensor expr) : tensor expr :=
  Tensor (shape a) [seq Sub ab.1 ab.2 | ab <- zip (data a) (data b)].

Definition T_pow (a : tensor expr) (n : nat) : tensor expr :=
  Tensor (shape a) [seq Pow e n | e <- data a].

Definition T_mean_axis1 (a : tensor expr) : tensor expr :=
  Tensor [:: dim a 0]
         [seq Div (foldr Add (Const 0) (row2 a i)) (Const (dim a 1)%:R) | i <- iota 0 (dim a 0)].

(** *** Dense linear algebra *)








(** *** The training step *)

(** A scalar shared variable that may hold [np.nan]. *)
Inductive scalar := NaN | Num (x : R).

(** [T.lt]: a comparison with [nan] is false. *)
Definition T_lt (a : scalar) (b : R) : bool := if a is Num x then x < b else false.

(** What [init_train_updates] reads from [self]. *)
Record LevenbergMarquardt := {
  network_output : tensor expr;
  prediction_func : tensor expr;
  last_error : scalar;
  error_func : expr;
  mu : R;
  mu_update_factor : R;
  train_layers : seq (seq (tensor R))
}.


(** The loop of lines 168-178. *)
Fixpoint param_updates (updated : seq R) (start_pos : nat) (params : seq (tensor R))
  : outcome (seq (tensor R)) :=
  if params is param :: params' then
    let end_pos := (start_pos + tsize param)%N in
    do value <- T_reshape (slice updated start_pos end_pos) (shape param);
    do values <- param_updates updated end_pos params';
    Return (value :: values)
  else Return [::].

Definition parameters (self : LevenbergMarquardt) : seq (tensor R) :=
  flatten (train_layers self).

Definition new_mu (self : LevenbergMarquardt) : R :=
  if T_lt (last_error self) (eval (parameters self) (error_func self))
  then mu self * mu_update_factor self
  else mu self / mu_update_factor self.

Definition err_of (self : LevenbergMarquardt) : tensor expr :=
  T_mean_axis1 (T_pow (T_sub (network_output self) (prediction_func self)) 2).


End Model.

End LevMarq.

(** *** A small network over the rationals

    One layer with a 1x1 weight [w = 1/2] and a bias [b = 0], two samples
    [x = 1, 2] with targets [1, 0], one output; prediction [w * x + b];
    [mu = 1/100], [mu_update_factor = 5], no error recorded yet. *)
Module Example.

Import LevMarq.

Local Open Scope ring_scope.

Definition weight : tensor rat := Tensor [:: 1; 1]%N [:: 2%:R^-1].
Definition bias : tensor rat := Tensor [:: 1%N] [:: 0].

Definition predict (x : rat) : expr rat :=
  Add (Mul (Shared rat 0 0) (Const x)) (Shared rat 1 0).

Definition net : LevenbergMarquardt rat :=
  {| network_output := Tensor [:: 2; 1]%N [:: Const 1; Const 0];
     prediction_func := Tensor [:: 2; 1]%N [:: predict 1; predict 2%:R];
     last_error := NaN rat;
     error_func :=
       Div (Add (Pow (Sub (Const 1) (predict 1)) 2) (Pow (Sub (Const 0) (predict 2%:R)) 2))
           (Const 2%:R);
     mu := 100%:R^-1;
     mu_update_factor := 5%:R;
     train_layers := [:: [:: weight; bias]] |}.

End Example.

(** ** Part 3: discrete memory input validation *)

Module DiscreteMemory.

Section Validation.

(** The element type of the input array: any numeric type with an exact
    equality test. *)
Variable T : nzSemiRingType.

Local Open Scope ring_scope.

(** What a Python call can hand back here. *)
Inductive pyvalue := PyNone | PyBool (b : bool).

(** [np.any((matrix != 0) & (matrix != 1))]: the array is reduced over all
    of its elements. *)
Definition np_any (mask : seq bool) : bool := has id mask.

(** [discrete_validation] (base.py, lines 41-57): raise on a non-binary
    element; otherwise fall off the end of the function. *)
Definition discrete_validation (matrix : LevMarq.tensor T) : outcome pyvalue :=
  if np_any [seq (x != 0) && (x != 1) | x <- LevMarq.data matrix]
  then Raise ValueError
  else Return PyNone.

(** A binary element: 0 or 1. *)
Definition binary (x : T) : bool := (x == 0) || (x == 1).

End Validation.

End DiscreteMemory.

(** * Theorems *)

(** ** Binary64 arithmetic: comparisons, signs of products and quotients *)

Section Binary64Facts.

Import Binary64.
Local Open Scope Z_scope.

Lemma SFcompare_antisym (x y : spec_float) :
  SFcompare y x = omap CompOpp (SFcompare x y).
Proof.
have cc_antisym p q :
  PosDef.Pos.compare_cont Eq q p = CompOpp (PosDef.Pos.compare_cont Eq p q).
  exact: (esym (Pos.compare_cont_antisym p q Eq)).
case: x => [sx|sx||sx mx ex]; case: y => [sy|sy||sy my ey] //=;
  try (by case: sx); try (by case: sy); try (by case: sx; case: sy).
case: sx; case: sy => //=; rewrite (Z.compare_antisym ex ey);
  case: (ex ?= ey) => //=; rewrite (cc_antisym mx my) //.
Qed.

Lemma ltb_leb_false (x y : float) : (x <? y)%float = true -> (y <=? x)%float = false.
Proof.
rewrite ltb_spec leb_spec /SFltb /SFleb (SFcompare_antisym (Prim2SF x)).
by case: (SFcompare _ _) => [[]|].
Qed.


Lemma ltb_nan (x : float) : (nan <? x)%float = false.
Proof. by rewrite ltb_spec. Qed.

Lemma leb0_nonneg (x : float) : (0 <=? x)%float = sf_nonneg (Prim2SF x).
Proof. by rewrite leb_spec; case: (Prim2SF x) => [s|[]||[] m e]. Qed.

(** Shifting a mantissa right, and rounding it to nearest-even, keep it
    non-negative; so rounding a non-negative mantissa with sign bit [false]
    never yields a negative value or a NaN. *)
Lemma shr_1_nonneg (r : shr_record) : 0 <= shr_m r -> 0 <= shr_m (shr_1 r).
Proof. by case: r => [[|[p|p|]|p] r s]. Qed.

Lemma iter_shr_1_nonneg (p : positive) (r : shr_record) :
  0 <= shr_m r -> 0 <= shr_m (iter_pos shr_1 p r).
Proof.
elim: p r => [p IH|p IH|] r Hr /=; last exact: shr_1_nonneg.
- exact: IH _ (IH _ (shr_1_nonneg Hr)).
- exact: IH _ (IH _ Hr).
Qed.

Lemma shr_fexp_nonneg (m e : Z) (l : location) :
  0 <= m -> 0 <= shr_m (shr_fexp prec emax m e l).1.
Proof.
move=> Hm; rewrite /shr_fexp /shr.
have H0 : 0 <= shr_m (shr_record_of_loc m l) by case: l => [|[]].
by case: (_ - e) => [|p|p] //=; apply: iter_shr_1_nonneg.
Qed.

Lemma round_nearest_even_nonneg (m : Z) (l : location) :
  0 <= m -> 0 <= round_nearest_even m l.
Proof. by case: l => [|[]] //=; try case: (IntDef.Z.even m); lia. Qed.

Lemma binary_round_aux_nonneg (m e : Z) (l : location) :
  0 <= m -> sf_nonneg (binary_round_aux prec emax false m e l).
Proof.
move=> Hm; rewrite /binary_round_aux.
have := @shr_fexp_nonneg _ e l Hm.
case: (shr_fexp prec emax m e l) => r1 e1 /= H1.
have := @shr_fexp_nonneg _ e1 loc_Exact
          (@round_nearest_even_nonneg _ (loc_of_shr_record r1) H1).
case: (shr_fexp prec emax _ e1 loc_Exact) => r2 e2 /=.
by case: (shr_m r2) => [|p|p] //= _; case: (e2 <=? _).
Qed.

Lemma SFdiv_core_nonneg (mx my : positive) (ex ey : Z) :
  0 <= (SFdiv_core_binary prec emax (Z.pos mx) ex (Z.pos my) ey).1.1.
Proof.
rewrite /SFdiv_core_binary.
set s := (ex - ey - _).
set m' := match s with 0 => _ | Z.pos _ => _ | Z.neg _ => _ end.
have Hm' : 0 <= m'.
  by rewrite /m'; case: (s) => [|p|p] //; apply/Z.shiftl_nonneg.
have := Z_div_mod m' (Z.pos my) (erefl _).
rewrite -/(Z.div_eucl m' (Z.pos my)).
case: (Z.div_eucl m' (Z.pos my)) => q r [Hq Hr]; rewrite [_.1.1]/=.
clearbody m'; nia.
Qed.

Lemma SFmul_nonneg (x y : spec_float) (my : positive) (ey : Z) :
  sf_nonneg x -> y = S754_finite false my ey -> sf_nonneg (SF64mul x y).
Proof.
move=> Hx ->; case: x Hx => [s|[]||[] mx ex] //= _.
exact: binary_round_aux_nonneg.
Qed.

Lemma SFdiv_nonneg (x y : spec_float) (my : positive) (ey : Z) :
  sf_nonneg x -> y = S754_finite false my ey -> sf_nonneg (SF64div x y).
Proof.
move=> Hx ->; case: x Hx => [s|[]||[] mx ex] //= _.
have := @SFdiv_core_nonneg mx my ex ey.
case: (SFdiv_core_binary _ _ _ _ _ _) => [[mz ez] lz] /= Hz.
exact: binary_round_aux_nonneg.
Qed.

(** A finite factor that is at least one is a positive finite value. *)
Lemma factor_finite (f : float) :
  (1 <=? f)%float = true -> (f <? infinity)%float = true ->
  exists m e, Prim2SF f = S754_finite false m e.
Proof.
rewrite leb_spec ltb_spec.
by case: (Prim2SF f) => [s|[]||[] m e] //= _ _; exists m, e.
Qed.

End Binary64Facts.

(** ** The damping rule across epochs (binary64) *)

Section DampingRule.

Import Binary64.
Local Open Scope float_scope.

Lemma mu_epoch_start_update (recorded : option float) (v : variables) :
  mu (epoch_start_update recorded v) = mu v.
Proof. by case: recorded. Qed.

(** C1, as the code has it: on the first epoch [self.last_error()] is [None],
    the hook leaves [last_error] at [np.nan], [nan < error] is false and the
    step takes the decrease branch: [mu] becomes the configured value divided
    by [mu_update_factor]. *)
Theorem first_epoch_divides_mu (self : LevenbergMarquardt) (error_func : float) :
  last_error (epoch_start_update None (init_variables self)) = nan /\
  mu (epoch self (init_variables self) (None, error_func))
    = self_mu self / self_mu_update_factor self.
Proof. by split=> //; rewrite /epoch /train_updates /new_mu /= ltb_nan. Qed.

(** C1 fails as stated: with the default options (mu = 0.01, factor 5) the
    first epoch leaves mu = 0.002, not the configured 0.01. *)
Lemma first_epoch_mu_not_kept :
  construct None None = Return {| self_mu := 0.01; self_mu_update_factor := 5 |} /\
  mu (train {| self_mu := 0.01; self_mu_update_factor := 5 |} [:: (None, 0.5)]) = 0.002 /\
  (mu (train {| self_mu := 0.01; self_mu_update_factor := 5 |} [:: (None, 0.5)]) =? 0.01) = false.
Proof. by []. Qed.



(** One damping update keeps a non-negative [mu] non-negative. *)
Lemma new_mu_nonneg (self : LevenbergMarquardt) (v : variables) (error_func : float) :
  (1 <=? self_mu_update_factor self) = true ->
  (self_mu_update_factor self <? infinity) = true ->
  (0 <=? mu v) = true -> (0 <=? new_mu self v error_func) = true.
Proof.
move=> /factor_finite H /H [m [e Hf]]; rewrite !leb0_nonneg /new_mu => Hmu.
case: (_ <? _); rewrite ?mul_spec ?div_spec.
- exact: SFmul_nonneg Hmu Hf.
- exact: SFdiv_nonneg Hmu Hf.
Qed.

Lemma train_from_nonneg (self : LevenbergMarquardt) (epochs : seq (option float * float))
    (v : variables) :
  (1 <=? self_mu_update_factor self) = true ->
  (self_mu_update_factor self <? infinity) = true ->
  (0 <=? mu v) = true -> (0 <=? mu (foldl (epoch self) v epochs)) = true.
Proof.
move=> H1 Hfin; elim: epochs v => [|e epochs IH] v Hv //=.
by apply: IH; apply: new_mu_nonneg => //; rewrite mu_epoch_start_update.
Qed.

(** C6, as the code has it: from a start value [mu >= 0] and a finite factor
    [>= 1], [mu] is [>= 0] (so neither negative nor NaN) after every epoch,
    whatever errors the epochs bring; nothing clamps it. *)
Theorem mu_stays_nonneg (self : LevenbergMarquardt) (epochs : seq (option float * float)) :
  (0 <=? self_mu self) = true ->
  (1 <=? self_mu_update_factor self) = true ->
  (self_mu_update_factor self <? infinity) = true ->
  (0 <=? mu (train self epochs)) = true.
Proof. by move=> H0 H1 Hfin; apply: train_from_nonneg. Qed.

(** Three epochs from the default options. *)
Lemma mu_stays_nonneg_default :
  (0 <=? mu (train {| self_mu := 0.01; self_mu_update_factor := 5 |}
                   [:: (None, 0.5); (Some 0.5, 0.7); (Some 0.7, 0.6)])) = true.
Proof.
exact: (@mu_stays_nonneg {| self_mu := 0.01; self_mu_update_factor := 5 |}
          [:: (None, 0.5); (Some 0.5, 0.7); (Some 0.7, 0.6)]
          (erefl true) (erefl true) (erefl true)).
Defined.

(** C6 fails as stated: strict positivity is lost by underflow.  From the
    smallest positive binary64 value and factor 5, one epoch leaves [mu = 0]. *)
Lemma mu_underflows_to_zero :
  (0 <? 0x1p-1074) = true /\ (1 <=? 5) = true /\
  mu (train {| self_mu := 0x1p-1074; self_mu_update_factor := 5 |} [:: (None, 1)]) = 0 /\
  (0 <? mu (train {| self_mu := 0x1p-1074; self_mu_update_factor := 5 |} [:: (None, 1)]))
    = false.
Proof. by []. Qed.

(** The same with the default options: 500 epochs whose error never rises. *)
Example mu_underflows_with_defaults :
  mu (train {| self_mu := 0.01; self_mu_update_factor := 5 |}
            ((None, 1) :: nseq 499 (Some 1, 1))) = 0.
Proof. by vm_compute. Qed.

(** C9: a supplied [mu < 0] or [mu_update_factor < 1] makes the constructor
    raise; the defaults are 0.01 and 5, and both pass the check. *)
Theorem construct_checks_bounds :
  (forall mu f, (mu <? 0) = true -> construct (Some mu) f = Raise ValueError) /\
  (forall mu f, (f <? 1) = true -> construct mu (Some f) = Raise ValueError) /\
  construct None None = Return {| self_mu := 0.01; self_mu_update_factor := 5 |} /\
  validate mu_property 0.01 = Return 0.01 /\
  validate mu_update_factor_property 5 = Return 5.
Proof.
split=> [mu f /ltb_leb_false E|]; first by rewrite /construct /= /validate /= E.
split=> [mu f /ltb_leb_false E|]; last by [].
rewrite /construct; case: mu => [mu|] /=; last by rewrite /validate /= E.
by rewrite {1}/validate; case: (_ <=? mu) => //=; rewrite /validate /= E.
Qed.

(** [mu = -1] and [mu_update_factor = 0.5] are rejected. *)
Lemma construct_checks_bounds_rejects :
  construct (Some (-1)) (Some 5) = Raise ValueError /\
  construct (Some 0.01) (Some 0.5) = Raise ValueError.
Proof.
split.
- exact: (proj1 construct_checks_bounds (-1) (Some 5) (erefl true)).
- exact: (proj1 (proj2 construct_checks_bounds) (Some 0.01) 0.5 (erefl true)).
Defined.

End DampingRule.

(** ** Slices of concatenations *)

Section Slices.

Import LevMarq.

Variable T : Type.

Lemma slice_cat (pre v suf : seq T) :
  slice (pre ++ v ++ suf) (size pre) (size pre + size v) = v.
Proof.
by rewrite /slice catA -size_cat take_size_cat // drop_size_cat.
Qed.

Lemma size_flatten_rows (d : nat) (rows : seq (seq T)) :
  all (fun r => size r == d) rows -> size (flatten rows) = (size rows * d)%N.
Proof.
elim: rows => [|r rows IH] //= /andP [/eqP Hr Hrows].
by rewrite size_cat Hr IH.
Qed.

(** Row [i] of a matrix stored row-major with rows of length [d]. *)
Lemma slice_flatten_rows (d i : nat) (rows : seq (seq T)) :
  all (fun r => size r == d) rows -> (i < size rows)%N ->
  slice (flatten rows) (i * d) (i * d + d) = nth [::] rows i.
Proof.
move=> Hrows Hi.
have Hall := Hrows; move: Hall; rewrite -{1}(cat_take_drop i rows) all_cat.
move=> /andP [Hpre _].
have Hd : size (nth [::] rows i) = d by apply/eqP; exact: (all_nthP [::] Hrows).
rewrite -{1}(cat_take_drop i rows) (drop_nth [::] Hi) flatten_cat /=.
have -> : (i * d = size (flatten (take i rows)))%N.
  by rewrite (size_flatten_rows Hpre) size_take Hi.
by rewrite -[X in (_ + X)%N]Hd slice_cat.
Qed.

End Slices.

(** ** Flattening the parameters and splitting the vector back *)

Section Unflatten.

Import LevMarq.

Variable R : realFieldType.

Implicit Types (params : seq (tensor R)) (vals : seq (seq R)).

(** The loop of [init_train_updates] cuts the vector at the running sums of
    the parameter sizes: chunk [k] of the vector becomes the new value of
    parameter [k], with that parameter's shape. *)
Lemma param_updates_chunks (pre suf : seq R) vals params :
  size vals = size params ->
  all (fun vp => size vp.1 == tsize vp.2) (zip vals params) ->
  param_updates (pre ++ flatten vals ++ suf) (size pre) params
    = Return [seq Tensor (shape vp.2) vp.1 | vp <- zip vals params].
Proof.
elim: params vals pre => [|p params IH] [|v vals] pre //= [Hsz] /andP [/eqP Hv Hall].
rewrite -Hv -catA slice_cat /T_reshape Hv eqxx /=.
have -> : pre ++ v ++ flatten vals ++ suf = (pre ++ v) ++ flatten vals ++ suf.
  by rewrite catA.
by rewrite -Hv -size_cat IH.
Qed.

Lemma all_size_zip vals params :
  [seq size v | v <- vals] = [seq tsize p | p <- params] ->
  all (fun vp => size vp.1 == tsize vp.2) (zip vals params).
Proof.
by elim: vals params => [|v vs IH] [|p ps] //= [-> /IH ->]; rewrite eqxx.
Qed.

Lemma zip_data_self params :
  [seq Tensor (shape vp.2) vp.1 | vp <- zip [seq data p | p <- params] params] = params.
Proof. by elim: params => [|[sh d] params IH] //=; rewrite IH. Qed.


End Unflatten.

(** ** The Jacobian builder *)

Section Jacobian.

Import LevMarq.

Variable R : realFieldType.

Implicit Types (x : seq (tensor R)) (y : tensor (expr R)) (cost : expr R).

Local Notation dflt := (Tensor [::] [::] : tensor R).

Lemma for_each_map (A B : Type) (f : A -> outcome B) (g : A -> B) (xs : seq A) :
  (forall a, f a = Return (g a)) -> for_each f xs = Return [seq g a | a <- xs].
Proof. by move=> Hf; elim: xs => [|a xs IH] //=; rewrite Hf /= IH. Qed.

Lemma zip_map_iota (A : Type) (f : nat -> A) x :
  zip [seq f k | k <- iota 0 (size x)] x
    = [seq (f k, nth dflt x k) | k <- iota 0 (size x)].
Proof. by rewrite -{2}(mkseq_nth dflt x) /mkseq zip_map. Qed.

Lemma T_concatenate_axis1_rows (n : nat) (ts : seq (tensor R)) :
  (0 < size ts)%N -> all (fun t => dim t 0 == n) ts ->
  T_concatenate_axis1 ts
    = Return (Tensor [:: n; sumn [seq dim t 1 | t <- ts]]
                     (flatten [seq flatten [seq row2 t i | t <- ts] | i <- iota 0 n])).
Proof.
case: ts => [|t0 ts] // _ Hall; have /andP [/eqP H0 _] := Hall.
by rewrite /T_concatenate_axis1 H0 Hall.
Qed.

(** The gradient has one tensor per parameter, of that parameter's shape and
    element count. *)
Lemma size_T_grad cost x : size (T_grad cost x) = size x.
Proof. by rewrite /T_grad size_map size_iota. Qed.

Lemma nth_T_grad cost x (k : nat) :
  (k < size x)%N ->
  nth dflt (T_grad cost x) k
    = Tensor (shape (nth dflt x k))
             [seq partial x k j cost | j <- iota 0 (tsize (nth dflt x k))].
Proof. by move=> Hk; rewrite /T_grad (nth_map 0%N) ?size_iota // nth_iota. Qed.

Lemma shape_T_grad cost x : [seq shape g | g <- T_grad cost x] = [seq shape p | p <- x].
Proof.
by rewrite /T_grad -[in RHS](mkseq_nth dflt x) /mkseq -!map_comp.
Qed.

Lemma size_data_T_grad cost x :
  [seq size (data g) | g <- T_grad cost x] = [seq tsize p | p <- x].
Proof.
rewrite /T_grad -[in RHS](mkseq_nth dflt x) /mkseq -!map_comp.
by apply: eq_map => k /=; rewrite size_map size_iota.
Qed.

Lemma size_flatten_T_grad cost x :
  size (flatten [seq data g | g <- T_grad cost x]) = sumn [seq tsize p | p <- x].
Proof. by rewrite size_flatten /seq.shape -map_comp -(size_data_T_grad cost). Qed.

(** The value [jaccobian] builds, in closed form: an [n_samples] by [P]
    matrix whose rows are the flattened, concatenated gradients of the
    single residuals. *)
Lemma jaccobian_value y x :
  (0 < size x)%N ->
  jaccobian y x
    = Return (Tensor [:: dim y 0; sumn [seq tsize p | p <- x]]
        (flatten [seq flatten [seq data g | g <- T_grad (item y i) x]
                 | i <- iota 0 (dim y 0)])).
Proof.
move=> Hx; rewrite /jaccobian /scan /T_sum; set n := dim y 0.
rewrite zip_map_iota.
pose stack k := flatten [seq data (nth dflt (T_grad (item y i) x) k) | i <- iota 0 n].
have Hstack k : (k < size x)%N -> size (stack k) = (n * tsize (nth dflt x k))%N.
  move=> Hk; rewrite (@size_flatten_rows _ (tsize (nth dflt x k))) ?size_map ?size_iota //.
  by apply/allP => r /mapP [i _ ->]; rewrite nth_T_grad //= size_map size_iota.
pose jacc := [seq Tensor [:: n; tsize (nth dflt x k)] (stack k) | k <- iota 0 (size x)].
have -> : for_each (fun jp : seq R * tensor R => T_reshape jp.1 [:: n; tsize jp.2])
            [seq (stack k, nth dflt x k) | k <- iota 0 (size x)] = Return jacc.
  have Hks : all (fun k => k < size x)%N (iota 0 (size x)).
    by apply/allP => k; rewrite mem_iota.
  rewrite /jacc; elim: (iota 0 (size x)) Hks => [|k ks IH] //= /andP [Hk Hks].
  by rewrite /T_reshape /= Hstack // muln1 eqxx /= IH.
have Hsize : (0 < size jacc)%N by rewrite /jacc size_map size_iota.
have Hdim : all (fun t => dim t 0 == n) jacc.
  by rewrite /jacc all_map; apply/allP => k _ /=; rewrite /dim.
rewrite /= (T_concatenate_axis1_rows Hsize Hdim).
congr (Return (Tensor [:: n; _] _)).
  by rewrite /jacc -[in RHS](mkseq_nth dflt x) /mkseq -!map_comp.
congr flatten; apply/eq_in_map => i; rewrite mem_iota /= add0n => Hi.
congr flatten; rewrite /jacc /T_grad -!map_comp.
apply/eq_in_map => k; rewrite mem_iota /= add0n => Hk.
rewrite /row2 /dim /= /stack (@slice_flatten_rows _ (tsize (nth dflt x k))) ?size_map ?size_iota //.
- by apply/allP => r /mapP [j _ ->]; rewrite nth_T_grad //= size_map size_iota.
- by rewrite (nth_map 0%N) ?size_iota // nth_iota // add0n nth_T_grad.
Qed.

Lemma jaccobian_row y x (i : nat) :
  (i < dim y 0)%N ->
  row2 (Tensor [:: dim y 0; sumn [seq tsize p | p <- x]]
          (flatten [seq flatten [seq data g | g <- T_grad (item y i) x]
                   | i <- iota 0 (dim y 0)])) i
    = flatten [seq data g | g <- T_grad (item y i) x].
Proof.
move=> Hi; rewrite /row2 /dim /= slice_flatten_rows ?size_map ?size_iota //.
- by apply/allP => r /mapP [j _ ->]; rewrite size_flatten_T_grad.
- by rewrite (nth_map 0%N) ?size_iota // nth_iota.
Qed.

End Jacobian.

(** ** The residual vector *)

Section Residual.

Import LevMarq GRing.Theory.

Variable R : realFieldType.

Local Open Scope ring_scope.

Implicit Types (params : seq (tensor R)) (a : tensor (expr R)).

Lemma eval_sum params (es : seq (expr R)) :
  eval params (foldr (@Add R) (Const 0) es) = \sum_(e <- es) eval params e.
Proof. by elim: es => [|e es IH] /=; rewrite ?big_nil // big_cons IH. Qed.

Lemma size_slice (T : Type) (v : seq T) (start len : nat) :
  (start + len <= size v)%N -> size (slice v start (start + len)) = len.
Proof.
by move=> Hv; rewrite /slice size_drop size_takel // addnC addnK.
Qed.

Lemma nth_slice (T : Type) (x0 : T) (v : seq T) (start len j : nat) :
  (j < len)%N -> nth x0 (slice v start (start + len)) j = nth x0 v (start + j).
Proof. by move=> Hj; rewrite /slice nth_drop nth_take // ltn_add2l. Qed.

Lemma row_in_bounds (N M i : nat) : (i < N)%N -> (i * M + M <= N * M)%N.
Proof. by move=> Hi; rewrite addnC -mulSn leq_mul2r Hi orbT. Qed.

(** C8: [err] has one entry per sample, and entry [i] is the mean over the
    output dimension [j] of the squared differences of sample [i]. *)
Theorem err_is_per_sample_mean (self : LevenbergMarquardt R) params (N M : nat) :
  shape (network_output self) = [:: N; M] ->
  shape (prediction_func self) = [:: N; M] ->
  well_shaped (network_output self) -> well_shaped (prediction_func self) ->
  [/\ shape (err_of self) = [:: N], size (data (err_of self)) = N
    & forall i, (i < N)%N ->
      eval params (item (err_of self) i)
        = (\sum_(j < M) (eval params (item2 (network_output self) i j)
                         - eval params (item2 (prediction_func self) i j)) ^+ 2)
          / M%:R].
Proof.
case: self => [[so o] [sp p] le ef m f layers] /= Ho Hp.
rewrite /well_shaped /tsize /= {}Ho {}Hp /= muln1 => /eqP Hso /eqP Hsp.
rewrite /err_of /T_mean_axis1 /T_pow /T_sub /dim /item /item2 /=.
split=> //; first by rewrite size_map size_iota.
move=> i Hi; rewrite (nth_map 0%N) ?size_iota // nth_iota // add0n /=.
congr (_ / _); rewrite eval_sum /row2 /dim /=.
set da := [seq Pow e 2 | e <- _].
have Hda : size da = (N * M)%N by rewrite !size_map size_zip Hso Hsp minnn.
rewrite (big_nth (Const 0)) size_slice ?Hda ?row_in_bounds // big_mkord.
apply: eq_bigr => j _; rewrite nth_slice //.
have Hij : (i * M + j < N * M)%N.
  by apply: leq_trans (row_in_bounds M Hi); rewrite ltn_add2l.
rewrite /da (nth_map (Const 0)) ?size_map ?size_zip ?Hso ?Hsp ?minnn //.
rewrite (nth_map (Const 0, Const 0)) ?size_zip ?Hso ?Hsp ?minnn //.
by rewrite nth_zip ?Hso ?Hsp.
Qed.

End Residual.

(** ** Claims on the Jacobian builder and on the flatten/split round trip *)

Section JacobianClaims.

Import LevMarq GRing.Theory.

Variable R : realFieldType.

Local Open Scope ring_scope.

Implicit Types (x params : seq (tensor R)) (y : tensor (expr R)).

Local Notation dflt := (Tensor [::] [::] : tensor R).



(** C7: splitting the flattened parameters with the loop of
    [init_train_updates] gives the parameters back, and the same loop cuts a
    row of the Jacobian into the per-parameter gradients: the columns of the
    Jacobian and the slices of the update follow the same boundaries. *)
Theorem flatten_then_split_is_identity :
  (forall params, all (@well_shaped R) params ->
     param_updates (flatten [seq tflatten p | p <- params]) 0 params = Return params) /\
  (forall y x J i, (0 < size x)%N -> jaccobian y x = Return J -> (i < dim y 0)%N ->
     param_updates (row2 J i) 0 x = Return (T_grad (item y i) x)).
Proof.
split.
- move=> params Hwf.
  have := @param_updates_chunks R [::] [::] [seq data p | p <- params] params.
  rewrite size_map cats0 zip_data_self /=; apply=> //.
  by elim: params Hwf => [|p ps IH] //= /andP [Hp /IH ->]; rewrite andbT.
- move=> y x J i Hx; rewrite jaccobian_value // => -[<-] Hi; rewrite jaccobian_row //.
  have := @param_updates_chunks R [::] [::] [seq data g | g <- T_grad (item y i) x] x.
  rewrite size_map size_T_grad cats0 /= => -> //.
  + by apply: all_size_zip; rewrite -map_comp -(size_data_T_grad (item y i)).
  + congr Return; rewrite /T_grad -map_comp -[X in zip _ X](mkseq_nth dflt x) /mkseq.
    by rewrite zip_map -map_comp; apply: eq_map => k.
Qed.

End JacobianClaims.

(** ** The damped normal equations *)

Section DampedSystem.

Import LevMarq GRing.Theory Num.Theory Order.Theory.

Variable R : realFieldType.

Local Open Scope ring_scope.










End DampedSystem.

(** ** Claims on the parameter step *)

Section StepClaims.

Import LevMarq GRing.Theory Num.Theory Order.Theory.

Variable R : realFieldType.

Local Open Scope ring_scope.

Local Notation err_values self :=
  [seq eval (parameters self) e | e <- data (err_of self)].

Local Notation param_vector self :=
  (flatten [seq tflatten p | p <- parameters self]).

Local Notation J11 := (Tensor [:: 2; 1]%N [:: 1; 1 : R]).


(** In exact arithmetic the damping rule keeps a positive [mu] positive:
    what is lost in binary64 is lost to underflow alone. *)
Lemma new_mu_gt0 (self : LevenbergMarquardt R) :
  0 < mu self -> 1 <= mu_update_factor self -> 0 < new_mu self.
Proof.
move=> Hmu Hf; have Hf0 : 0 < mu_update_factor self by exact: lt_le_trans Hf.
by rewrite /new_mu; case: (T_lt _ _); [apply: mulr_gt0 | apply: divr_gt0].
Qed.






End StepClaims.

(** ** Discrete memory: validation of the input matrix *)

Section DiscreteValidation.

Import LevMarq DiscreteMemory GRing.Theory.

Variable T : nzSemiRingType.

Local Open Scope ring_scope.

Lemma np_any_not_binary (xs : seq T) :
  np_any [seq (x != 0) && (x != 1) | x <- xs] = ~~ all (@binary T) xs.
Proof.
by rewrite /np_any has_map -has_predC; apply: eq_has => x /=; rewrite /binary negb_or.
Qed.

(** C10: [discrete_validation] raises [ValueError] exactly when some element
    is neither 0 nor 1; on a binary matrix it returns [None]; it never returns
    a boolean. *)
Theorem discrete_validation_raises_iff (matrix : tensor T) :
  [/\ discrete_validation matrix = Raise ValueError
        <-> (exists2 x, x \in data matrix & (x != 0) && (x != 1)),
      discrete_validation matrix
        = (if all (@binary T) (data matrix) then Return PyNone else Raise ValueError)
    & forall b : bool, discrete_validation matrix <> Return (PyBool b)].
Proof.
have Hdv : discrete_validation matrix
             = (if all (@binary T) (data matrix) then Return PyNone else Raise ValueError).
  by rewrite /discrete_validation np_any_not_binary; case: (all _ _).
split=> //; last by move=> b; rewrite Hdv; case: (all _ _).
rewrite Hdv; split.
- case Hall: (all _ _) => // _.
  have /allPn [x Hx Hnb] : ~~ all (@binary T) (data matrix) by rewrite Hall.
  by exists x => //; move: Hnb; rewrite /binary negb_or.
- case=> x Hx Hnb; case Hall: (all _ _) => //.
  by move/allP/(_ x Hx): Hall; rewrite /binary -[_ || _]negbK negb_or Hnb.
Qed.

End DiscreteValidation.

(** ** Instances on the example network and on small matrices *)

Section Instances.

Import LevMarq GRing.Theory Num.Theory.

Local Open Scope ring_scope.

(** The residual of the example network: two samples, one output. *)
Lemma err_is_per_sample_mean_example :
  [/\ shape (err_of Example.net) = [:: 2%N], size (data (err_of Example.net)) = 2%N
    & forall i, (i < 2)%N ->
      eval (parameters Example.net) (item (err_of Example.net) i)
        = (\sum_(j < 1) (eval (parameters Example.net) (item2 (network_output Example.net) i j)
                         - eval (parameters Example.net)
                             (item2 (prediction_func Example.net) i j)) ^+ 2)
          / 1%:R].
Proof.
exact: (@err_is_per_sample_mean rat Example.net (parameters Example.net) 2 1
          (erefl _) (erefl _) isT isT).
Defined.

(** Weight and bias of the example network survive the round trip. *)
Lemma flatten_then_split_example :
  param_updates (flatten [seq tflatten p | p <- parameters Example.net]) 0
                (parameters Example.net)
    = Return (parameters Example.net).
Proof.
exact: (proj1 (flatten_then_split_is_identity rat) (parameters Example.net) isT).
Defined.




(** A binary matrix passes; a matrix holding a 2 raises. *)
Lemma discrete_validation_example :
  DiscreteMemory.discrete_validation (Tensor [:: 2; 2]%N [:: 0; 1; 1; 0 : int])
    = Return DiscreteMemory.PyNone /\
  DiscreteMemory.discrete_validation (Tensor [:: 1; 2]%N [:: 0; 2%:R : int])
    = Raise ValueError.
Proof.
split.
- by have [_ -> _] := discrete_validation_raises_iff (Tensor [:: 2; 2]%N [:: 0; 1; 1; 0 : int]).
- by have [_ -> _] := discrete_validation_raises_iff (Tensor [:: 1; 2]%N [:: 0; 2%:R : int]).
Defined.

End Instances.
